(** * GoogleTransalator: the language catalog, the fuzzy resolver and the
      request handlers of [main.py], embedded in Rocq.

    Python strings are modelled as [string] (ASCII characters), Python ints as
    [Z], lists as [list], [None]-able values as [option].  Code that can raise
    returns a [result]; the request handlers, which call collaborators whose
    invocation matters, run in a small trace-and-error monad [M]. *)

From Stdlib Require Import List ZArith String Ascii Bool Arith Lia.
From Stdlib Require Import Permutation Sorted.
Import ListNotations.

Set Implicit Arguments.

(** ** Exceptions and results *)

(** [HTTPException(status_code, detail)] of FastAPI and every other Python
    exception.  The detail of the handlers' catch-all,
    [f"Internal Server Error: {str(e)}"], is kept structured: it carries the
    exception it was built from. *)
Inductive exn : Type :=
| HTTPException (status_code : Z) (detail : http_detail)
| PyError (name : string)
with http_detail : Type :=
| Text (s : string)
| InternalServerError (cause : exn).

Inductive result (A : Type) : Type :=
| Ok (a : A)
| Raise (e : exn).
Arguments Ok {A} a.
Arguments Raise {A} e.

Definition rbind {A B} (r : result A) (k : A -> result B) : result B :=
  match r with
  | Ok a => k a
  | Raise e => Raise e
  end.

(** [try: r except Exception as e: h e] *)
Definition rcatch {A} (r : result A) (h : exn -> result A) : result A :=
  match r with
  | Ok a => Ok a
  | Raise e => h e
  end.

Declare Scope result_scope.
Delimit Scope result_scope with result.
Notation "x <- r ;; k" := (rbind r (fun x => k))
  (at level 61, r at next level, right associativity) : result_scope.

Fixpoint mapM {A B} (f : A -> result B) (l : list A) : result (list B) :=
  match l with
  | [] => Ok []
  | x :: l' => (y <- f x ;; ys <- mapM f l' ;; Ok (y :: ys))%result
  end.

(** ** Python built-ins used by the source *)

Module Py.

(** [str.lower], on ASCII letters. *)
Definition lower_char (c : ascii) : ascii :=
  let n := nat_of_ascii c in
  if (65 <=? n)%nat && (n <=? 90)%nat then ascii_of_nat (n + 32) else c.

Fixpoint lower (s : string) : string :=
  match s with
  | EmptyString => EmptyString
  | String c s' => String (lower_char c) (lower s')
  end.

(** [s.split(sep)] for a one-character separator: never the empty list,
    empty tokens are kept. *)
Fixpoint split (sep : ascii) (s : string) : list string :=
  match s with
  | EmptyString => [EmptyString]
  | String c s' =>
      if Ascii.eqb c sep then EmptyString :: split sep s'
      else match split sep s' with
           | [] => [String c EmptyString]
           | tok :: toks => String c tok :: toks
           end
  end.

(** [sep.join(l)] *)
Fixpoint join (sep : ascii) (l : list string) : string :=
  match l with
  | [] => EmptyString
  | [tok] => tok
  | tok :: toks => (tok ++ String sep (join sep toks))%string
  end.

(** [s.count(c)] for a character. *)
Fixpoint count (c : ascii) (s : string) : nat :=
  match s with
  | EmptyString => 0
  | String c' s' => (if Ascii.eqb c' c then 1 else 0) + count c s'
  end.

(** [c in s] for a character. *)
Fixpoint contains (c : ascii) (s : string) : bool :=
  match s with
  | EmptyString => false
  | String c' s' => Ascii.eqb c' c || contains c s'
  end.

Definition is_upper (c : ascii) : bool :=
  let n := nat_of_ascii c in (65 <=? n)%nat && (n <=? 90)%nat.

(** Some character of [s] is an ASCII capital. *)
Fixpoint has_upper (s : string) : bool :=
  match s with
  | EmptyString => false
  | String c s' => is_upper c || has_upper s'
  end.

Definition is_space (c : ascii) : bool :=
  let n := nat_of_ascii c in
  (n =? 32)%nat || ((9 <=? n)%nat && (n <=? 13)%nat)
  || ((28 <=? n)%nat && (n <=? 31)%nat).

Fixpoint lstrip (s : string) : string :=
  match s with
  | EmptyString => EmptyString
  | String c s' => if is_space c then lstrip s' else s
  end.

Fixpoint rstrip (s : string) : string :=
  match s with
  | EmptyString => EmptyString
  | String c s' =>
      match rstrip s' with
      | EmptyString => if is_space c then EmptyString else String c EmptyString
      | r => String c r
      end
  end.

(** [s.strip()] *)
Definition strip (s : string) : string := rstrip (lstrip s).

(** [l.index(x)]: the first position of [x], [ValueError] when absent. *)
Fixpoint index (x : string) (l : list string) : result nat :=
  match l with
  | [] => Raise (PyError "ValueError")
  | y :: l' =>
      if String.eqb y x then Ok 0%nat
      else (i <- index x l' ;; Ok (S i))%result
  end.

(** [l[i]] for [i >= 0]: [IndexError] out of range. *)
Definition getitem {A} (l : list A) (i : nat) : result A :=
  match nth_error l i with
  | Some a => Ok a
  | None => Raise (PyError "IndexError")
  end.

(** [x in l] on strings. *)
Definition mem (x : string) (l : list string) : bool :=
  existsb (String.eqb x) l.

(** The stable descending sort behind [sorted(..., reverse=True)], on
    (key, element) pairs: an element goes in front of the first one whose
    key is not greater, so equal keys keep their original order. *)
Fixpoint insert_desc {A} (k : Z) (x : A) (l : list (Z * A)) : list (Z * A) :=
  match l with
  | [] => [(k, x)]
  | (k', y) :: l' =>
      if (k' <=? k)%Z then (k, x) :: l else (k', y) :: insert_desc k x l'
  end.

Fixpoint sort_desc {A} (l : list (Z * A)) : list (Z * A) :=
  match l with
  | [] => []
  | (k, x) :: l' => insert_desc k x (sort_desc l')
  end.

(** [sorted(l, key=key, reverse=True)] for a key function that cannot
    raise. *)
Definition sorted_desc {A} (key : A -> Z) (l : list A) : list A :=
  map snd (sort_desc (map (fun x => (key x, x)) l)).

(** [sorted(l, key=key, reverse=True)] where the key function may raise:
    the keys are computed first, one per element and in order. *)
Definition sorted_reverse {A} (key : A -> result Z) (l : list A)
  : result (list A) :=
  (keys <- mapM key l ;; Ok (map snd (sort_desc (combine keys l))))%result.

(** [heapq.nlargest(n, l, key=key)], that is
    [sorted(l, key=key, reverse=True)[:n]]: among equal keys the earlier
    elements are the ones kept. *)
Definition nlargest {A} (n : nat) (key : A -> Z) (l : list A) : list A :=
  firstn n (sorted_desc key l).

End Py.

(** ** fuzzywuzzy's [process.extract] *)

(** The similarity score itself ([fuzz.WRatio] on the processed query and
    choice, an int in 0..100) is a parameter [scorer query choice]. *)
Module Process.
Section WithScorer.

Variable scorer : string -> string -> Z.

Definition score_cutoff : Z := 0.

(** [extractWithoutOrder(query, choices)]: one (choice, score) pair per
    choice, in the order of [choices], when [score >= score_cutoff]. *)
Definition extractWithoutOrder (query : string) (choices : list string)
  : list (string * Z) :=
  filter (fun m => (score_cutoff <=? snd m)%Z)
         (map (fun choice => (choice, scorer query choice)) choices).

(** The default of [extract]'s [limit] argument. *)
Definition limit : nat := 5.

(** [extract(query, choices)]:
    [heapq.nlargest(limit, sl, key=lambda i: i[1])]. *)
Definition extract (query : string) (choices : list string)
  : list (string * Z) :=
  Py.nlargest limit snd (extractWithoutOrder query choices).

End WithScorer.
End Process.

(** ** main.py *)

(** *** The fuzzy resolver *)

Section Resolver.

Variable scorer : string -> string -> Z.

Definition default_threshold : Z := 75.

(** The key of the [sorted] call on line 69,
    [lambda x: matches[filtered_matches.index(x)][1]]; [filtered_matches]
    is still the unsorted list while [sorted] runs. *)
Definition sort_key (matches : list (string * Z))
           (filtered_matches : list string) (x : string) : result Z :=
  (i <- Py.index x filtered_matches ;;
   m <- Py.getitem matches i ;;
   Ok (snd m))%result.

Definition search_closest_items (search_word : string) (items : list string)
           (threshold : Z) : result (list string) :=
  rcatch
    (let matches := Process.extract scorer search_word items in
     let filtered_matches :=
       map fst (filter (fun m => (threshold <=? snd m)%Z) matches) in
     Py.sorted_reverse (sort_key matches filtered_matches) filtered_matches)
    (fun e => Raise (HTTPException 500 (InternalServerError e))).

End Resolver.

(** [a] occurs in [l] at a position before an occurrence of [b]. *)
Definition appears_before (a b : string) (l : list string) : Prop :=
  exists l1 l2 l3, l = l1 ++ a :: l2 ++ b :: l3.

(** [l] lists its strings by non-increasing score. *)
Definition sorted_by_score (score : string -> Z) (l : list string) : Prop :=
  StronglySorted (fun a b => (score b <= score a)%Z) l.

(** Keys never increase along a list of (key, element) pairs. *)
Definition keys_desc {A} (l : list (Z * A)) : Prop :=
  StronglySorted (fun p q => (fst q <= fst p)%Z) l.

(** The keys of the elements never increase along the list. *)
Definition by_key_desc {A} (key : A -> Z) (l : list A) : Prop :=
  StronglySorted (fun a b => (key b <= key a)%Z) l.

(** Order-preserving sublists. *)
Inductive sublist {A} : list A -> list A -> Prop :=
| sublist_nil : sublist [] []
| sublist_cons x l1 l2 : sublist l1 l2 -> sublist (x :: l1) (x :: l2)
| sublist_skip x l1 l2 : sublist l1 l2 -> sublist l1 (x :: l2).

(** [l1] is an initial segment of [l2]. *)
Definition prefix {A} (l1 l2 : list A) : Prop := exists rest, l2 = l1 ++ rest.

(** *** Startup configuration *)

Record Config : Type := {
  api_key : option string;
  languages : list string
}.

(** The process environment, as [os.getenv] reads it. *)
Definition environ : Type := string -> option string.

(** [[x.lower() for x in s.split(",")]] *)
Definition load_languages (s : string) : list string :=
  map Py.lower (Py.split "," s).

(** The module-level statements of lines 47-48.  [None.split] raises
    [AttributeError], which aborts the import of the module. *)
Definition startup (getenv : environ) : result Config :=
  let key := getenv "API_KEY"%string in
  match getenv "LANGUAGES"%string with
  | None => Raise (PyError "AttributeError")
  | Some s => Ok {| api_key := key; languages := load_languages s |}
  end.

(** The catalog as the specification words it: tokens trimmed, lowercased,
    empty ones dropped.  Not what the source computes; used for comparison
    only. *)
Definition catalog_per_spec (s : string) : list string :=
  filter (fun tok => negb (String.eqb tok EmptyString))
         (map (fun tok => Py.lower (Py.strip tok)) (Py.split "," s)).

(** *** Authentication *)

Definition opt_eqb (a b : option string) : bool :=
  match a, b with
  | None, None => true
  | Some x, Some y => String.eqb x y
  | _, _ => false
  end.

(** [api_key_header] is what [APIKeyHeader(auto_error=False)] hands over:
    [None] when the request has no Authorization header. *)
Definition is_authenticated (cfg : Config) (api_key_header : option string)
  : result bool :=
  if negb (opt_eqb api_key_header (api_key cfg)) then
    Raise (HTTPException 401 (Text "Incorrect Authentication credentials"))
  else Ok true.

(** *** Request handlers *)

(** Calls whose occurrence the specification talks about: a call of
    [search_closest_items], and reaching the translator on lines 121-122. *)
Inductive event : Type :=
| CallResolver (search_word : string)
| CallTranslator (text dest : string).

(** A handler run: the calls it made, and how it ended. *)
Definition M (A : Type) : Type := (list event * result A)%type.

Definition ret {A} (a : A) : M A := ([], Ok a).
Definition raise {A} (e : exn) : M A := ([], Raise e).
Definition lift {A} (r : result A) : M A := ([], r).
Definition emit (ev : event) : M unit := ([ev], Ok tt).

Definition bind {A B} (m : M A) (k : A -> M B) : M B :=
  match m with
  | (tr, Ok a) => let (tr', r) := k a in (tr ++ tr', r)
  | (tr, Raise e) => (tr, Raise e)
  end.

Definition try_except {A} (m : M A) (h : exn -> M A) : M A :=
  match m with
  | (tr, Ok a) => (tr, Ok a)
  | (tr, Raise e) => let (tr', r) := h e in (tr ++ tr', r)
  end.

Declare Scope handler_scope.
Delimit Scope handler_scope with handler.
Notation "x <- m ;; k" := (bind m (fun x => k))
  (at level 61, m at next level, right associativity) : handler_scope.
Notation "m ;; k" := (bind m (fun _ => k))
  (at level 61, right associativity) : handler_scope.

Definition trace {A} (m : M A) : list event := fst m.

Record UserPrompt : Type := {
  prompt : string;
  destination_language : string
}.

Inductive response : Type :=
| Languages (supported : list string)
| UserPromptResponse (completion : string).

(** The catch-all of every handler:
    [except Exception as e: raise HTTPException(500, ...)]. *)
Definition internal_server_error {A} (e : exn) : M A :=
  raise (HTTPException 500 (InternalServerError e)).

Section Handlers.

Variable scorer : string -> string -> Z.

(** [Translator().translate(text, dest=dest).text] of googletrans. *)
Variable translator : string -> string -> result string.

Variable cfg : Config.

(** [if search:] is false for [None] and for the empty string; any other
    search word goes to the resolver, with the default threshold. *)
Definition supported_languages (search : option string) : M response :=
  try_except
    (match search with
     | Some (String _ _ as word) =>
         (emit (CallResolver word) ;;
          found <- lift (search_closest_items scorer word (languages cfg)
                                              default_threshold) ;;
          ret (Languages found))%handler
     | _ => ret (Languages (languages cfg))
     end)
    internal_server_error.

Definition all_supported_languages : M response :=
  try_except (ret (Languages (languages cfg))) internal_server_error.

Definition translate (userprompt : UserPrompt) : M response :=
  try_except
    (if negb (Py.mem (Py.lower (destination_language userprompt))
                     (languages cfg))
     then raise (HTTPException 400
            (Text "Invalid destination language. Please provide a valid destination language."))
     else
       (emit (CallTranslator (prompt userprompt)
                             (destination_language userprompt)) ;;
        out <- lift (translator (prompt userprompt)
                                (destination_language userprompt)) ;;
        ret (UserPromptResponse out))%handler)
    (fun e =>
       match e with
       | HTTPException _ _ => raise e
       | _ => internal_server_error e
       end).

(** The requests: [GET_supported_languages search] carries the [search]
    query parameter, [None] when the request has none; [POST_translate]
    carries the parsed body. *)
Inductive endpoint : Type :=
| GET_supported_languages (search : option string)
| GET_all_supported_languages
| POST_translate (userprompt : UserPrompt).

(** What FastAPI does with a request once its dependencies are solved.
    [search] is declared on line 81 without a default value, so it is a
    required query parameter: a request without it never reaches
    [supported_languages]; FastAPI raises [RequestValidationError], which it
    answers with status 422. *)
Definition dispatch (ep : endpoint) : M response :=
  match ep with
  | GET_supported_languages None =>
      raise (PyError "RequestValidationError")
  | GET_supported_languages (Some word) => supported_languages (Some word)
  | GET_all_supported_languages => all_supported_languages
  | POST_translate userprompt => translate userprompt
  end.

(** The routes: the [Depends(is_authenticated)] dependency runs first. *)
Definition route (api_key_header : option string) (ep : endpoint)
  : M response :=
  (_ <- lift (is_authenticated cfg api_key_header) ;; dispatch ep)%handler.

End Handlers.

(** The process as a whole: requests are served only once the module has
    been imported, that is when [startup] returned a configuration. *)
Definition serve (scorer : string -> string -> Z)
           (translator : string -> string -> result string)
           (getenv : environ) (api_key_header : option string)
           (ep : endpoint) : option (M response) :=
  match startup getenv with
  | Ok cfg => Some (route scorer translator cfg api_key_header ep)
  | Raise _ => None
  end.

(** ** Sample data *)

(** A scorer given by a table of (query, choice, score) entries; 0 for a
    pair the table does not list. *)
Fixpoint table_scorer (table : list (string * string * Z))
         (query choice : string) : Z :=
  match table with
  | [] => 0%Z
  | (q, c, s) :: table' =>
      if String.eqb query q && String.eqb choice c then s
      else table_scorer table' query choice
  end.

(** Six catalog entries and the scores [fuzz.WRatio] gives them for the
    query "chinese": 100 for the entry itself, 90 for each longer entry (its
    partial ratio 100, scaled by 0.9). *)
Definition chinese_catalog : list string :=
  ["chinese"; "chinese simplified"; "chinese traditional";
   "chinese cantonese"; "chinese mandarin"; "chinese hakka"]%string.

Definition chinese_scores : list (string * string * Z) :=
  [("chinese", "chinese", 100); ("chinese", "chinese simplified", 90);
   ("chinese", "chinese traditional", 90);
   ("chinese", "chinese cantonese", 90);
   ("chinese", "chinese mandarin", 90);
   ("chinese", "chinese hakka", 90)]%string%Z.

Definition sample_scorer : string -> string -> Z :=
  table_scorer chinese_scores.

(** A translator that answers with the text it was given. *)
Definition echo_translator (text dest : string) : result string := Ok text.

(** An environment given by a list of (name, value) bindings. *)
Fixpoint getenv_of (bindings : list (string * string)) (name : string)
  : option string :=
  match bindings with
  | [] => None
  | (n, v) :: bindings' =>
      if String.eqb name n then Some v else getenv_of bindings' name
  end.

(** An environment that sets LANGUAGES and leaves API_KEY unset. *)
Definition env_without_api_key : environ :=
  getenv_of [("LANGUAGES", "yoruba,hausa")]%string.

(** An environment that sets API_KEY and leaves LANGUAGES unset. *)
Definition env_without_languages : environ :=
  getenv_of [("API_KEY", "secret")]%string.

Definition sample_config : Config :=
  {| api_key := Some "secret"%string;
     languages := ["yoruba"; "hausa"]%string |}.

(** A configuration whose catalog is the six-entry one. *)
Definition chinese_config : Config :=
  {| api_key := Some "secret"%string; languages := chinese_catalog |}.

(** * Verification *)

(** ** Facts about the Python built-ins *)

Lemma In_firstn {A} (n : nat) (l : list A) (x : A) :
  In x (firstn n l) -> In x l.
Proof.
  intros H. rewrite <- (firstn_skipn n l). apply in_or_app. now left.
Qed.

Section SortFacts.

Context {A : Type}.

Lemma insert_desc_perm (k : Z) (x : A) (l : list (Z * A)) :
  Permutation (Py.insert_desc k x l) ((k, x) :: l).
Proof.
  induction l as [|[k' y] l IH]; simpl.
  - apply Permutation_refl.
  - destruct (k' <=? k)%Z.
    + apply Permutation_refl.
    + eapply perm_trans; [apply perm_skip, IH | apply perm_swap].
Qed.

Lemma sort_desc_perm (l : list (Z * A)) : Permutation (Py.sort_desc l) l.
Proof.
  induction l as [|[k x] l IH]; simpl.
  - constructor.
  - eapply perm_trans; [apply insert_desc_perm | now apply perm_skip].
Qed.

Lemma insert_desc_sorted (k : Z) (x : A) (l : list (Z * A)) :
  keys_desc l -> keys_desc (Py.insert_desc k x l).
Proof.
  unfold keys_desc.
  induction l as [|[k' y] l IH]; intros Hs; simpl.
  - repeat constructor.
  - inversion Hs as [|? ? Hl Hall]; subst.
    destruct (k' <=? k)%Z eqn:E.
    + apply Z.leb_le in E. constructor; [assumption|].
      constructor; [exact E|].
      eapply Forall_impl; [|exact Hall]. simpl. intros; lia.
    + apply Z.leb_gt in E. constructor; [now apply IH|].
      eapply Permutation_Forall;
        [apply Permutation_sym, insert_desc_perm|].
      constructor; [simpl; lia | exact Hall].
Qed.

Lemma sort_desc_sorted (l : list (Z * A)) : keys_desc (Py.sort_desc l).
Proof.
  induction l as [|[k x] l IH]; simpl.
  - constructor.
  - now apply insert_desc_sorted.
Qed.

(** Stability: a list already in order is left as it is. *)
Lemma sort_desc_id (l : list (Z * A)) : keys_desc l -> Py.sort_desc l = l.
Proof.
  unfold keys_desc.
  induction l as [|[k x] l IH]; intros Hs; simpl; [reflexivity|].
  inversion Hs as [|? ? Hl Hall]; subst.
  rewrite (IH Hl).
  destruct l as [|[k' y] l]; simpl; [reflexivity|].
  inversion Hall as [|? ? Hk _]; subst. simpl in Hk.
  apply Z.leb_le in Hk. now rewrite Hk.
Qed.

Variable key : A -> Z.

Lemma decorated_snd (l : list A) :
  map snd (map (fun x => (key x, x)) l) = l.
Proof.
  rewrite map_map. simpl. apply map_id.
Qed.

Lemma sorted_desc_perm (l : list A) : Permutation (Py.sorted_desc key l) l.
Proof.
  unfold Py.sorted_desc.
  rewrite <- (decorated_snd l) at 2.
  apply Permutation_map, sort_desc_perm.
Qed.

Lemma keys_desc_undecorate (l : list (Z * A)) :
  Forall (fun p => fst p = key (snd p)) l ->
  keys_desc l -> by_key_desc key (map snd l).
Proof.
  unfold keys_desc, by_key_desc.
  induction l as [|p l IH]; intros Hd Hs; simpl; [constructor|].
  inversion Hd as [|? ? Hp Hd']; subst.
  inversion Hs as [|? ? Hl Hall]; subst.
  constructor; [now apply IH|].
  rewrite Forall_map. rewrite Forall_forall in *.
  intros q Hq. rewrite <- Hp, <- (Hd' q Hq). now apply Hall.
Qed.

Lemma by_key_desc_decorate (l : list A) :
  by_key_desc key l -> keys_desc (map (fun x => (key x, x)) l).
Proof.
  unfold keys_desc, by_key_desc.
  induction 1 as [|a l Hl IH Hall]; simpl; constructor; [assumption|].
  rewrite Forall_map. simpl. exact Hall.
Qed.

Lemma decorated_keys (l : list A) :
  Forall (fun p => fst p = key (snd p)) (map (fun x => (key x, x)) l).
Proof.
  rewrite Forall_map. simpl. now apply Forall_forall.
Qed.

Lemma sorted_desc_sorted (l : list A) : by_key_desc key (Py.sorted_desc key l).
Proof.
  unfold Py.sorted_desc. apply keys_desc_undecorate.
  - eapply Permutation_Forall;
      [apply Permutation_sym, sort_desc_perm | apply decorated_keys].
  - apply sort_desc_sorted.
Qed.

Lemma sorted_desc_id (l : list A) :
  by_key_desc key l -> Py.sorted_desc key l = l.
Proof.
  intros Hs. unfold Py.sorted_desc.
  rewrite sort_desc_id by now apply by_key_desc_decorate.
  apply decorated_snd.
Qed.

Lemma mapM_total (f : A -> result Z) (l : list A) :
  (forall x, In x l -> f x = Ok (key x)) -> mapM f l = Ok (map key l).
Proof.
  induction l as [|x l IH]; intros Hf; simpl; [reflexivity|].
  rewrite (Hf x) by now left. simpl.
  rewrite IH by (intros; apply Hf; now right). reflexivity.
Qed.

Lemma combine_keys (l : list A) :
  combine (map key l) l = map (fun x => (key x, x)) l.
Proof.
  induction l as [|x l IH]; simpl; [reflexivity | now rewrite IH].
Qed.

(** When no key raises, the fallible [sorted] is the plain one. *)
Lemma sorted_reverse_total (f : A -> result Z) (l : list A) :
  (forall x, In x l -> f x = Ok (key x)) ->
  Py.sorted_reverse f l = Ok (Py.sorted_desc key l).
Proof.
  intros Hf. unfold Py.sorted_reverse.
  rewrite (mapM_total f l Hf). simpl. now rewrite combine_keys.
Qed.

Lemma by_key_desc_firstn (n : nat) (l : list A) :
  by_key_desc key l -> by_key_desc key (firstn n l).
Proof.
  unfold by_key_desc. intros Hs. revert n.
  induction Hs as [|a l Hl IH Hall]; intros [|n]; simpl; try constructor.
  - apply IH.
  - rewrite Forall_forall in *. intros b Hb.
    apply Hall. eapply In_firstn; eauto.
Qed.

Lemma by_key_desc_filter (f : A -> bool) (l : list A) :
  by_key_desc key l -> by_key_desc key (filter f l).
Proof.
  unfold by_key_desc.
  induction 1 as [|a l Hl IH Hall]; simpl; [constructor|].
  destruct (f a); [|assumption].
  constructor; [assumption|].
  rewrite Forall_forall in *. intros b Hb.
  apply Hall. now apply filter_In in Hb.
Qed.

(** On a list in descending key order, keeping the keys at or above a
    threshold keeps a prefix. *)
Lemma filter_threshold_prefix (t : Z) (l : list A) :
  by_key_desc key l ->
  filter (fun x => (t <=? key x)%Z) l
  = firstn (List.length (filter (fun x => (t <=? key x)%Z) l)) l.
Proof.
  unfold by_key_desc.
  induction 1 as [|a l Hl IH Hall]; simpl; [reflexivity|].
  destruct (t <=? key a)%Z eqn:E; simpl.
  - now rewrite <- IH.
  - replace (filter (fun x => (t <=? key x)%Z) l) with (@nil A);
      [reflexivity|].
    symmetry. apply Z.leb_gt in E.
    clear IH Hl. induction Hall as [|b l Hb Hall IHl]; simpl; [reflexivity|].
    replace (t <=? key b)%Z with false by (symmetry; apply Z.leb_gt; lia).
    exact IHl.
Qed.

End SortFacts.

Lemma index_nth (x : string) (l : list string) (i : nat) :
  Py.index x l = Ok i -> nth_error l i = Some x.
Proof.
  revert i. induction l as [|y l IH]; intros i; simpl; [discriminate|].
  destruct (String.eqb y x) eqn:E.
  - intros [= <-]. apply String.eqb_eq in E. now subst.
  - destruct (Py.index x l) as [j|e]; simpl; [|discriminate].
    intros [= <-]. simpl. now apply IH.
Qed.

Lemma index_total (x : string) (l : list string) :
  In x l -> exists i, Py.index x l = Ok i.
Proof.
  induction l as [|y l IH]; simpl; [contradiction|].
  intros Hin. destruct (String.eqb y x) eqn:E; [now exists 0%nat|].
  destruct Hin as [->|Hin]; [now rewrite String.eqb_refl in E|].
  destruct (IH Hin) as [i ->]. now exists (S i).
Qed.

Lemma mem_In (x : string) (l : list string) : Py.mem x l = true <-> In x l.
Proof.
  unfold Py.mem. rewrite existsb_exists. split.
  - intros [y [Hy E]]. apply String.eqb_eq in E. now subst.
  - intros H. exists x. split; [assumption | apply String.eqb_refl].
Qed.

(** ** The fuzzy resolver *)

Section ResolverFacts.

Variable scorer : string -> string -> Z.
Variable query : string.
Variable items : list string.

Local Abbreviation sc := (scorer query).
Local Abbreviation scored := (Process.extractWithoutOrder scorer query items).
Local Abbreviation matches := (Process.extract scorer query items).

(** What line 66 computes. *)
Local Abbreviation filtered threshold :=
  (map fst (filter (fun m => (threshold <=? snd m)%Z) matches)).

Lemma scored_In (m : string * Z) :
  In m scored <->
  In (fst m) items /\ snd m = sc (fst m) /\ (0 <= snd m)%Z.
Proof.
  unfold Process.extractWithoutOrder, Process.score_cutoff.
  rewrite filter_In, in_map_iff, Z.leb_le. split.
  - intros [[c [<- Hc]] H0]. simpl in *. auto.
  - intros [Hc [Hs H0]]. split; [|assumption].
    exists (fst m). split; [|assumption].
    destruct m as [c s]. simpl in *. now subst.
Qed.

Lemma scored_fst_sublist : sublist (map fst scored) items.
Proof.
  unfold Process.extractWithoutOrder.
  induction items as [|c l IH]; simpl; [constructor|].
  destruct (Process.score_cutoff <=? scorer query c)%Z; simpl.
  - now apply sublist_cons.
  - now apply sublist_skip.
Qed.

Lemma matches_In (m : string * Z) : In m matches -> In m scored.
Proof.
  unfold Process.extract, Py.nlargest. intros H.
  apply In_firstn in H.
  eapply Permutation_in; [apply sorted_desc_perm | exact H].
Qed.

Lemma matches_scored : Forall (fun m => snd m = sc (fst m)) matches.
Proof.
  apply Forall_forall. intros m Hm.
  now apply matches_In, scored_In in Hm.
Qed.

Lemma matches_sorted : by_key_desc snd matches.
Proof.
  unfold Process.extract, Py.nlargest.
  apply by_key_desc_firstn, sorted_desc_sorted.
Qed.

Lemma matches_length : (List.length matches <= 5)%nat.
Proof.
  unfold Process.extract, Py.nlargest, Process.limit.
  apply firstn_le_length.
Qed.

Lemma by_score_fst (l : list (string * Z)) :
  Forall (fun m => snd m = sc (fst m)) l ->
  by_key_desc snd l -> sorted_by_score sc (map fst l).
Proof.
  unfold by_key_desc, sorted_by_score.
  induction l as [|m l IH]; intros Hd Hs; simpl; [constructor|].
  inversion Hd as [|? ? Hm Hd']; subst.
  inversion Hs as [|? ? Hl Hall]; subst.
  constructor; [now apply IH|].
  rewrite Forall_map. rewrite Forall_forall in *.
  intros m' Hm'. rewrite <- Hm, <- (Hd' m' Hm'). now apply Hall.
Qed.

Lemma filtered_In (threshold : Z) (x : string) :
  In x (filtered threshold) <->
  In (x, sc x) matches /\ (threshold <= sc x)%Z.
Proof.
  rewrite in_map_iff. split.
  - intros [[c s] [<- Hm]]. apply filter_In in Hm. destruct Hm as [Hm Ht].
    simpl in *. apply Z.leb_le in Ht.
    pose proof matches_scored as Hall. rewrite Forall_forall in Hall.
    specialize (Hall _ Hm). simpl in Hall. subst s. auto.
  - intros [Hm Ht]. exists (x, sc x). split; [reflexivity|].
    apply filter_In. split; [assumption|]. now apply Z.leb_le.
Qed.

Lemma filtered_sorted (threshold : Z) :
  sorted_by_score sc (filtered threshold).
Proof.
  apply by_score_fst.
  - apply Forall_forall. intros m Hm. apply filter_In in Hm.
    pose proof matches_scored as Hall. rewrite Forall_forall in Hall.
    now apply Hall.
  - apply by_key_desc_filter, matches_sorted.
Qed.

(** The thresholded matches are the first entries of [matches], so a
    position in the filtered list is the same position in [matches]. *)
Lemma filtered_prefix (threshold : Z) :
  exists k, filtered threshold = map fst (firstn k matches).
Proof.
  eexists.
  rewrite (@filter_threshold_prefix _ snd threshold matches matches_sorted) at 1.
  reflexivity.
Qed.

(** The key of line 69 is the element's own score, and never raises. *)
Lemma sort_key_score (threshold : Z) (x : string) :
  In x (filtered threshold) ->
  sort_key matches (filtered threshold) x = Ok (sc x).
Proof.
  intros Hin. unfold sort_key.
  destruct (index_total _ _ Hin) as [i Hi]. rewrite Hi. simpl.
  apply index_nth in Hi.
  destruct (filtered_prefix threshold) as [k Hk]. rewrite Hk in Hi.
  rewrite nth_error_map, nth_error_firstn in Hi.
  destruct (i <? k)%nat; [|discriminate].
  unfold Py.getitem.
  destruct (nth_error matches i) as [m|] eqn:Hm; [|discriminate].
  simpl in *. injection Hi as <-.
  apply nth_error_In in Hm.
  pose proof matches_scored as Hall. rewrite Forall_forall in Hall.
  now rewrite (Hall _ Hm).
Qed.

(** [search_closest_items] never raises, and its final sort changes
    nothing: it returns the thresholded entries of [process.extract]'s
    list, in that list's order. *)
Lemma search_closest_items_eq (threshold : Z) :
  search_closest_items scorer query items threshold
  = Ok (filtered threshold).
Proof.
  unfold search_closest_items. cbv zeta.
  rewrite (@sorted_reverse_total _ sc (sort_key matches (filtered threshold))
                                 (filtered threshold))
    by (intros x Hx; now apply sort_key_score).
  simpl. f_equal. apply sorted_desc_id, filtered_sorted.
Qed.

End ResolverFacts.

Lemma sublist_refl {A} (l : list A) : sublist l l.
Proof.
  induction l; constructor; assumption.
Qed.

Lemma sublist_In {A} (l1 l2 : list A) (x : A) :
  sublist l1 l2 -> In x l1 -> In x l2.
Proof.
  induction 1; simpl; intuition.
Qed.

Lemma sublist_NoDup {A} (l1 l2 : list A) :
  sublist l1 l2 -> NoDup l2 -> NoDup l1.
Proof.
  induction 1 as [|x l1 l2 Hs IH|x l1 l2 Hs IH]; intros Hnd.
  - constructor.
  - inversion Hnd as [|? ? Hx Hl]; subst. constructor; [|now apply IH].
    intros Hin. apply Hx. eapply sublist_In; eauto.
  - inversion Hnd; subst. now apply IH.
Qed.

Lemma sublist_firstn {A} (n : nat) (l : list A) : sublist (firstn n l) l.
Proof.
  revert n. induction l as [|x l IH]; intros [|n]; simpl.
  - constructor.
  - constructor.
  - apply sublist_skip. apply (IH 0%nat).
  - apply sublist_cons, IH.
Qed.

Lemma sublist_filter {A} (f : A -> bool) (l : list A) : sublist (filter f l) l.
Proof.
  induction l as [|x l IH]; simpl; [constructor|].
  destruct (f x); constructor; assumption.
Qed.

Lemma sublist_map {A B} (f : A -> B) (l1 l2 : list A) :
  sublist l1 l2 -> sublist (map f l1) (map f l2).
Proof.
  induction 1; simpl; constructor; assumption.
Qed.

Lemma sublist_trans {A} (l1 l2 l3 : list A) :
  sublist l1 l2 -> sublist l2 l3 -> sublist l1 l3.
Proof.
  intros H12 H23. revert l1 H12.
  induction H23 as [|x l2 l3 H IH|x l2 l3 H IH]; intros l1 H12.
  - assumption.
  - inversion H12; subst.
    + apply sublist_cons. now apply IH.
    + apply sublist_skip. now apply IH.
  - apply sublist_skip. now apply IH.
Qed.

(** A permutation of a list has, for each sublist of itself, a sublist of
    the original with the same elements. *)
Lemma sublist_of_permutation {A} (l l' : list A) :
  Permutation l l' ->
  forall s, sublist s l -> exists s', sublist s' l' /\ Permutation s s'.
Proof.
  induction 1 as [|x l l' Hp IH|x y l|l l' l'' Hp1 IH1 Hp2 IH2]; intros s Hs.
  - exists s. split; [assumption | apply Permutation_refl].
  - inversion Hs as [|? s1 ? Hs1|? ? ? Hs1]; subst.
    + destruct (IH _ Hs1) as [s' [Hs' Hps]].
      exists (x :: s'). split; [now constructor | now apply perm_skip].
    + destruct (IH _ Hs1) as [s' [Hs' Hps]].
      exists s'. split; [now apply sublist_skip | assumption].
  - inversion Hs as [|? s1 ? Hs1|? ? ? Hs1]; subst.
    + inversion Hs1 as [|? s2 ? Hs2|? ? ? Hs2]; subst.
      * exists (x :: y :: s2). split; [now repeat constructor | apply perm_swap].
      * exists (y :: s1). split;
          [apply sublist_skip; now constructor | apply Permutation_refl].
    + inversion Hs1 as [|? s2 ? Hs2|? ? ? Hs2]; subst.
      * exists (x :: s2). split;
          [apply sublist_cons; now apply sublist_skip | apply Permutation_refl].
      * exists s. split;
          [now repeat apply sublist_skip | apply Permutation_refl].
  - destruct (IH1 _ Hs) as [s1 [Hs1 Hp1']].
    destruct (IH2 _ Hs1) as [s2 [Hs2 Hp2']].
    exists s2. split; [assumption | eapply perm_trans; eauto].
Qed.

Lemma sorted_after (score : string -> Z) (l1 l3 : list string) (b : string) :
  sorted_by_score score (l1 ++ b :: l3) ->
  Forall (fun x => (score x <= score b)%Z) l3.
Proof.
  unfold sorted_by_score.
  induction l1 as [|y l1 IH]; simpl; intros Hs.
  - now inversion Hs.
  - inversion Hs; subst. now apply IH.
Qed.

(** In a list sorted by non-increasing score, an element comes before every
    element of strictly smaller score. *)
Lemma sorted_appears_before (score : string -> Z) (l : list string)
      (a b : string) :
  sorted_by_score score l -> In a l -> In b l -> (score b < score a)%Z ->
  appears_before a b l.
Proof.
  intros Hs Ha Hb Hlt.
  destruct (in_split _ _ Hb) as [l1 [l3 ->]].
  apply in_app_or in Ha. destruct Ha as [Ha|[Ha|Ha]].
  - destruct (in_split _ _ Ha) as [l1' [l2 ->]].
    exists l1', l2, l3. now rewrite <- app_assoc.
  - subst. lia.
  - pose proof (sorted_after _ _ _ Hs) as Hall.
    rewrite Forall_forall in Hall. specialize (Hall _ Ha). lia.
Qed.

Lemma appears_before_In_r (a b : string) (l : list string) :
  appears_before a b l -> In b l.
Proof.
  intros [l1 [l2 [l3 ->]]].
  apply in_or_app. right. right. apply in_or_app. right. now left.
Qed.

Section ResolverProperties.

Variable scorer : string -> string -> Z.
Variable query : string.
Variable items : list string.
Variable threshold : Z.

Local Abbreviation matches := (Process.extract scorer query items).
Local Abbreviation resolved :=
  (map fst (filter (fun m => (threshold <=? snd m)%Z) matches)).

Lemma matches_fst_shape :
  exists s, sublist s items /\ Permutation (map fst matches) s.
Proof.
  unfold Process.extract, Py.nlargest.
  set (scored := Process.extractWithoutOrder scorer query items).
  destruct (@sublist_of_permutation _ (map fst (Py.sorted_desc snd scored))
              (map fst scored)
              (Permutation_map fst (sorted_desc_perm snd scored))
              (map fst (firstn Process.limit (Py.sorted_desc snd scored))))
    as [s [Hs Hp]].
  - apply sublist_map, sublist_firstn.
  - exists s. split; [|assumption].
    eapply sublist_trans; [exact Hs | apply scored_fst_sublist].
Qed.

(** The result has the elements of an order-preserving sublist of the
    candidates. *)
Lemma resolved_shape :
  exists s, sublist s items /\ Permutation resolved s.
Proof.
  destruct matches_fst_shape as [s0 [Hs0 Hp0]].
  destruct (@sublist_of_permutation _ _ _ Hp0 resolved) as [s [Hs Hp]].
  - apply sublist_map, sublist_filter.
  - exists s. split; [|assumption]. eapply sublist_trans; eauto.
Qed.

Lemma resolved_incl : incl resolved items.
Proof.
  destruct resolved_shape as [s [Hs Hp]]. intros x Hx.
  eapply sublist_In; [exact Hs|]. eapply Permutation_in; eauto.
Qed.

Lemma resolved_NoDup : NoDup items -> NoDup resolved.
Proof.
  intros Hnd. destruct resolved_shape as [s [Hs Hp]].
  eapply Permutation_NoDup; [apply Permutation_sym, Hp|].
  eapply sublist_NoDup; eauto.
Qed.

Lemma resolved_length : (List.length resolved <= 5)%nat.
Proof.
  rewrite length_map.
  eapply Nat.le_trans; [apply filter_length_le | apply matches_length].
Qed.

End ResolverProperties.

Lemma scored_length (scorer : string -> string -> Z) (query : string)
      (items : list string) :
  (List.length (Process.extractWithoutOrder scorer query items)
   <= List.length items)%nat.
Proof.
  unfold Process.extractWithoutOrder.
  eapply Nat.le_trans; [apply filter_length_le | now rewrite length_map].
Qed.

(** X3: with at most five candidates nothing is cut off: every candidate
    whose score reaches the threshold (and the library's cutoff 0) is
    returned. *)
Lemma resolver_complete_within_limit (scorer : string -> string -> Z)
      (query : string) (items : list string) (threshold : Z) (c : string) :
  (List.length items <= 5)%nat ->
  In c items -> (threshold <= scorer query c)%Z -> (0 <= scorer query c)%Z ->
  exists l, search_closest_items scorer query items threshold = Ok l
            /\ In c l.
Proof.
  intros Hlen Hc Ht H0. eexists. split; [apply search_closest_items_eq|].
  apply filtered_In. split; [|assumption].
  unfold Process.extract, Py.nlargest, Process.limit.
  rewrite firstn_all2.
  - eapply Permutation_in; [apply Permutation_sym, sorted_desc_perm|].
    apply scored_In. simpl. auto.
  - rewrite (Permutation_length (sorted_desc_perm snd _)).
    eapply Nat.le_trans; [apply scored_length | exact Hlen].
Qed.

(** X4: with more than five distinct candidates that all reach the
    threshold, some candidate that reaches it is missing from the result,
    whatever the scorer. *)
Lemma resolver_omits_beyond_limit (scorer : string -> string -> Z)
      (query : string) (items : list string) (threshold : Z) :
  NoDup items -> (5 < List.length items)%nat ->
  (forall c, In c items -> (threshold <= scorer query c)%Z) ->
  exists l c, search_closest_items scorer query items threshold = Ok l
              /\ In c items /\ (threshold <= scorer query c)%Z /\ ~ In c l.
Proof.
  intros Hnd Hlen Hall.
  eexists. rewrite search_closest_items_eq.
  set (l := map fst _).
  destruct (Forall_Exists_dec (fun x => In x l)
              (fun x => in_dec string_dec x l) items) as [Hin|Hex].
  - exfalso. rewrite Forall_forall in Hin.
    pose proof (NoDup_incl_length Hnd Hin) as Hle.
    pose proof (resolved_length scorer query items threshold) as H5.
    fold l in H5. lia.
  - apply Exists_exists in Hex. destruct Hex as [c [Hc Hn]].
    exists c. repeat split; auto.
Qed.

(** X2: the result is sorted by non-increasing score: of two returned
    candidates, the one with the strictly greater score comes first. *)
Lemma resolver_sorted (scorer : string -> string -> Z) (query : string)
      (items : list string) (threshold : Z) :
  exists l, search_closest_items scorer query items threshold = Ok l
            /\ sorted_by_score (scorer query) l
            /\ forall a b, In a l -> In b l ->
                           (scorer query b < scorer query a)%Z ->
                           appears_before a b l.
Proof.
  eexists. split; [apply search_closest_items_eq|].
  pose proof (filtered_sorted scorer query items threshold) as Hs.
  split; [exact Hs|].
  intros a b Ha Hb Hlt. eapply sorted_appears_before; eauto.
Qed.

(** C1 (the code omits a qualifying candidate): on the six-entry catalog
    every candidate scores at least the threshold 75 for the query
    "chinese", yet [search_closest_items] returns only the five best;
    "chinese hakka" qualifies and is left out. *)
Theorem search_closest_items_drops_sixth_match :
  search_closest_items sample_scorer "chinese" chinese_catalog 75
  = Ok ["chinese"; "chinese simplified"; "chinese traditional";
        "chinese cantonese"; "chinese mandarin"]%string
  /\ Forall (fun c => (75 <= sample_scorer "chinese" c)%Z) chinese_catalog
  /\ In "chinese hakka"%string chinese_catalog
  /\ ~ In "chinese hakka"%string
        ["chinese"; "chinese simplified"; "chinese traditional";
         "chinese cantonese"; "chinese mandarin"]%string.
Proof.
  split; [reflexivity|]. split.
  - unfold chinese_catalog.
    repeat (constructor; [apply Z.leb_le; reflexivity|]). constructor.
  - split; [simpl; tauto|].
    simpl. intuition discriminate.
Qed.

(** C2: for a candidate list without duplicates, [search_closest_items]
    returns (never raises) a list that holds only candidates, holds none of
    them twice, and is a rearrangement of an order-preserving sublist of the
    candidate list. *)
Theorem search_closest_items_drawn_from_candidates
        (scorer : string -> string -> Z) (query : string)
        (items : list string) (threshold : Z) :
  NoDup items ->
  exists l, search_closest_items scorer query items threshold = Ok l
            /\ incl l items
            /\ NoDup l
            /\ exists s, sublist s items /\ Permutation l s.
Proof.
  intros Hnd. eexists. split; [apply search_closest_items_eq|].
  split; [apply resolved_incl|].
  split; [now apply resolved_NoDup | apply resolved_shape].
Qed.

Lemma chinese_catalog_NoDup : NoDup chinese_catalog.
Proof.
  unfold chinese_catalog.
  repeat (constructor; [simpl; intuition discriminate|]).
  constructor.
Defined.

Lemma search_closest_items_drawn_from_candidates_witness :
  NoDup chinese_catalog /\
  exists l, search_closest_items sample_scorer "chinese" chinese_catalog 75
            = Ok l
            /\ incl l chinese_catalog
            /\ NoDup l
            /\ exists s, sublist s chinese_catalog /\ Permutation l s.
Proof.
  split; [exact chinese_catalog_NoDup|].
  apply (search_closest_items_drawn_from_candidates
           sample_scorer "chinese" 75 chinese_catalog_NoDup).
Defined.

(** The result follows the scores, not the order of the candidate list. *)
Lemma search_closest_items_reorders :
  search_closest_items sample_scorer "chinese"
                       ["chinese simplified"; "chinese"]%string 75
  = Ok ["chinese"; "chinese simplified"]%string.
Proof.
  reflexivity.
Qed.

(** C3 (the code cuts the lower-scored candidate off): "chinese" (score
    100) and "chinese hakka" (score 90) are both candidates at or above the
    threshold 75 and the first scores strictly higher, yet "chinese" does
    not appear before "chinese hakka" in the result, which does not contain
    "chinese hakka" at all. *)
Theorem search_closest_items_loses_lower_match :
  In "chinese"%string chinese_catalog
  /\ In "chinese hakka"%string chinese_catalog
  /\ (sample_scorer "chinese" "chinese hakka"
      < sample_scorer "chinese" "chinese")%Z
  /\ (75 <= sample_scorer "chinese" "chinese hakka")%Z
  /\ exists l, search_closest_items sample_scorer "chinese" chinese_catalog 75
               = Ok l
               /\ ~ appears_before "chinese" "chinese hakka" l.
Proof.
  split; [simpl; tauto|]. split; [simpl; tauto|].
  split; [reflexivity|]. split; [apply Z.leb_le; reflexivity|].
  eexists. split; [reflexivity|].
  intros Hb. apply appears_before_In_r in Hb. simpl in Hb.
  intuition discriminate.
Qed.

(** C4: when the scorer gives the empty query the score 0 against every
    choice (as [fuzz.WRatio] does for an empty processed query), the empty
    query resolves to the empty list for every candidate list and every
    threshold [t > 0]. *)
Theorem search_closest_items_empty_query
        (scorer : string -> string -> Z) (items : list string)
        (threshold : Z) :
  (forall choice, scorer ""%string choice = 0%Z) ->
  (0 < threshold)%Z ->
  search_closest_items scorer "" items threshold = Ok [].
Proof.
  intros Hempty Ht. rewrite search_closest_items_eq. f_equal.
  destruct (map fst _) as [|x l] eqn:E; [reflexivity|].
  assert (Hx : In x (x :: l)) by now left.
  rewrite <- E in Hx. apply filtered_In in Hx.
  rewrite Hempty in Hx. lia.
Qed.

Lemma search_closest_items_empty_query_witness :
  (forall choice, sample_scorer ""%string choice = 0%Z)
  /\ (0 < 75)%Z
  /\ search_closest_items sample_scorer "" chinese_catalog 75 = Ok [].
Proof.
  split; [intros choice; reflexivity|]. split; [reflexivity|].
  apply (@search_closest_items_empty_query sample_scorer chinese_catalog 75).
  - intros choice. reflexivity.
  - reflexivity.
Defined.

(** C9: [search_closest_items] always returns, and returns at most 5
    elements, however many candidates there are and whatever they score:
    [process.extract] keeps its default limit of 5. *)
Theorem search_closest_items_at_most_five
        (scorer : string -> string -> Z) (query : string)
        (items : list string) (threshold : Z) :
  exists l, search_closest_items scorer query items threshold = Ok l
            /\ (List.length l <= 5)%nat.
Proof.
  eexists. split; [apply search_closest_items_eq | apply resolved_length].
Qed.

(** ** The language catalog *)

Lemma lower_char_comma (c : ascii) :
  Ascii.eqb (Py.lower_char c) "," = Ascii.eqb c ",".
Proof.
  destruct c as [[] [] [] [] [] [] [] []]; reflexivity.
Qed.

Lemma lower_char_not_upper (c : ascii) : Py.is_upper (Py.lower_char c) = false.
Proof.
  destruct c as [[] [] [] [] [] [] [] []]; reflexivity.
Qed.

Lemma split_not_nil (sep : ascii) (s : string) : Py.split sep s <> [].
Proof.
  destruct s as [|c s]; simpl; [discriminate|].
  destruct (Ascii.eqb c sep); [discriminate|].
  destruct (Py.split sep s); discriminate.
Qed.

(** Joining the tokens with the separator gives the string back. *)
Lemma join_split (sep : ascii) (s : string) : Py.join sep (Py.split sep s) = s.
Proof.
  induction s as [|c s IH]; simpl; [reflexivity|].
  destruct (Ascii.eqb c sep) eqn:E.
  - apply Ascii.eqb_eq in E. subst c.
    destruct (Py.split sep s) as [|tok toks] eqn:Es;
      [now apply split_not_nil in Es|].
    rewrite <- IH. reflexivity.
  - destruct (Py.split sep s) as [|tok toks] eqn:Es;
      [now apply split_not_nil in Es|].
    rewrite <- IH. destruct toks as [|tok' toks]; reflexivity.
Qed.

Lemma split_length (sep : ascii) (s : string) :
  List.length (Py.split sep s) = S (Py.count sep s).
Proof.
  induction s as [|c s IH]; simpl; [reflexivity|].
  destruct (Ascii.eqb c sep); simpl.
  - now rewrite IH.
  - destruct (Py.split sep s) as [|tok toks] eqn:Es;
      [now apply split_not_nil in Es|].
    simpl in *. exact IH.
Qed.

Lemma split_no_sep (sep : ascii) (s : string) :
  Forall (fun tok => Py.contains sep tok = false) (Py.split sep s).
Proof.
  induction s as [|c s IH]; simpl.
  - repeat constructor.
  - destruct (Ascii.eqb c sep) eqn:E.
    + constructor; [reflexivity | exact IH].
    + destruct (Py.split sep s) as [|tok toks] eqn:Es.
      * repeat constructor. simpl. now rewrite E.
      * inversion IH as [|? ? Htok Htoks]; subst.
        constructor; [|assumption]. simpl. now rewrite E, Htok.
Qed.

(** Lowercasing commutes with splitting at commas. *)
Lemma split_lower (s : string) :
  Py.split "," (Py.lower s) = map Py.lower (Py.split "," s).
Proof.
  induction s as [|c s IH]; simpl; [reflexivity|].
  rewrite lower_char_comma.
  destruct (Ascii.eqb c ","); simpl; [now rewrite IH|].
  rewrite IH. destruct (Py.split "," s); reflexivity.
Qed.

Lemma lower_no_upper (s : string) : Py.has_upper (Py.lower s) = false.
Proof.
  induction s as [|c s IH]; simpl; [reflexivity|].
  now rewrite lower_char_not_upper, IH.
Qed.

Lemma count_lower (s : string) : Py.count "," (Py.lower s) = Py.count "," s.
Proof.
  induction s as [|c s IH]; simpl; [reflexivity|].
  now rewrite lower_char_comma, IH.
Qed.

(** C5 (as amended): the catalog is the ordered sequence of the
    comma-separated tokens of the configuration string, each lowercased and
    otherwise unchanged: it is the split of the lowercased string, joining
    its entries with commas gives the lowercased string back, it has one
    entry more than the string has commas (empty tokens are kept), and no
    entry holds a comma or an ASCII capital. *)
Theorem load_languages_tokens (s : string) :
  load_languages s = Py.split "," (Py.lower s)
  /\ Py.join "," (load_languages s) = Py.lower s
  /\ List.length (load_languages s) = S (Py.count "," s)
  /\ Forall (fun tok => Py.contains "," tok = false
                        /\ Py.has_upper tok = false) (load_languages s).
Proof.
  unfold load_languages. rewrite <- split_lower.
  split; [reflexivity|].
  split; [apply join_split|].
  split; [now rewrite split_length, count_lower|].
  pose proof (split_no_sep "," (Py.lower s)) as Hsep.
  rewrite Forall_forall in *. intros tok Htok.
  split; [now apply Hsep|].
  rewrite split_lower in Htok. apply in_map_iff in Htok.
  destruct Htok as [t [<- _]]. apply lower_no_upper.
Qed.

(** C5 (counterexample): for the configuration string "Yoruba, Hausa,,"
    the catalog keeps the blank in front of "hausa" and the two empty
    tokens, so it is not the sequence of trimmed, non-empty tokens. *)
Lemma load_languages_keeps_blanks_and_empties :
  load_languages "Yoruba, Hausa,,"
  = ["yoruba"; " hausa"; ""; ""]%string
  /\ catalog_per_spec "Yoruba, Hausa,," = ["yoruba"; "hausa"]%string
  /\ load_languages "Yoruba, Hausa,," <> catalog_per_spec "Yoruba, Hausa,,".
Proof.
  split; [reflexivity|]. split; [reflexivity|].
  vm_compute. discriminate.
Qed.

(** ** Startup *)

(** C7 (as amended): startup fails, with the [AttributeError] of
    [None.split], exactly when LANGUAGES is absent, and then no request is
    served; when LANGUAGES is present startup succeeds whether or not
    API_KEY is set, and the configured key is whatever [os.getenv] gave,
    [None] included. *)
Theorem startup_fails_iff_languages_absent
        (scorer : string -> string -> Z)
        (translator : string -> string -> result string)
        (getenv : environ) (api_key_header : option string) (ep : endpoint) :
  match getenv "LANGUAGES"%string with
  | None =>
      startup getenv = Raise (PyError "AttributeError")
      /\ serve scorer translator getenv api_key_header ep = None
  | Some s =>
      startup getenv
      = Ok {| api_key := getenv "API_KEY"%string;
              languages := load_languages s |}
      /\ serve scorer translator getenv api_key_header ep
         = Some (route scorer translator
                       {| api_key := getenv "API_KEY"%string;
                          languages := load_languages s |}
                       api_key_header ep)
  end.
Proof.
  unfold serve, startup.
  destruct (getenv "LANGUAGES"%string); split; reflexivity.
Qed.

(** With LANGUAGES absent the import of the module fails and nothing is
    served, whether or not API_KEY is set. *)
Lemma startup_without_languages_fails :
  startup env_without_languages = Raise (PyError "AttributeError")
  /\ serve sample_scorer echo_translator env_without_languages
           (Some "secret"%string) GET_all_supported_languages = None.
Proof.
  split; reflexivity.
Qed.

(** C7 (counterexample): with LANGUAGES set and API_KEY absent, startup
    does not fail, and a request without Authorization header is served. *)
Lemma startup_without_api_key_succeeds :
  env_without_api_key "API_KEY"%string = None
  /\ startup env_without_api_key
     = Ok {| api_key := None; languages := ["yoruba"; "hausa"]%string |}
  /\ ~ (exists e, startup env_without_api_key = Raise e)
  /\ serve sample_scorer echo_translator env_without_api_key None
           GET_all_supported_languages
     = Some ([], Ok (Languages ["yoruba"; "hausa"]%string)).
Proof.
  split; [reflexivity|]. split; [reflexivity|].
  split; [|reflexivity].
  intros [e He]. discriminate He.
Qed.

(** ** Authentication *)

Lemma opt_eqb_eq (a b : option string) : opt_eqb a b = true <-> a = b.
Proof.
  destruct a as [x|], b as [y|]; simpl; split; try congruence.
  - intros E. apply String.eqb_eq in E. now subst.
  - intros [= ->]. apply String.eqb_refl.
Qed.

(** C8: [is_authenticated] raises the 401 error exactly when the header
    value differs from the configured key, and returns [True] otherwise; in
    particular, when no key is configured and the request has no
    Authorization header, authentication succeeds and the route goes on
    to dispatch the request. *)
Theorem is_authenticated_iff (cfg : Config) (api_key_header : option string)
        (langs : list string) (scorer : string -> string -> Z)
        (translator : string -> string -> result string) (ep : endpoint) :
  (is_authenticated cfg api_key_header
   = Raise (HTTPException 401 (Text "Incorrect Authentication credentials"))
   <-> api_key_header <> api_key cfg)
  /\ (is_authenticated cfg api_key_header = Ok true
      <-> api_key_header = api_key cfg)
  /\ is_authenticated {| api_key := None; languages := langs |} None = Ok true
  /\ route scorer translator {| api_key := None; languages := langs |} None ep
     = dispatch scorer translator {| api_key := None; languages := langs |} ep.
Proof.
  split; [|split; [|split]].
  - unfold is_authenticated.
    destruct (opt_eqb api_key_header (api_key cfg)) eqn:E; simpl.
    + apply opt_eqb_eq in E. split; [discriminate | congruence].
    + split; [|reflexivity]. intros _ H. apply opt_eqb_eq in H. congruence.
  - unfold is_authenticated.
    destruct (opt_eqb api_key_header (api_key cfg)) eqn:E; simpl.
    + apply opt_eqb_eq in E. split; [congruence | reflexivity].
    + split; [discriminate|]. intros H. apply opt_eqb_eq in H. congruence.
  - reflexivity.
  - unfold route. simpl.
    now destruct (dispatch scorer translator _ ep).
Qed.

(** ** Request handlers *)

(** A destination in the catalog (after lowercasing) is handed to the
    translator, once, with the destination as the caller wrote it. *)
Lemma translate_forwards_catalog_member
      (translator : string -> string -> result string) (cfg : Config)
      (userprompt : UserPrompt) :
  In (Py.lower (destination_language userprompt)) (languages cfg) ->
  trace (translate translator cfg userprompt)
  = [CallTranslator (prompt userprompt) (destination_language userprompt)].
Proof.
  intros Hin. apply mem_In in Hin. unfold translate. rewrite Hin. simpl.
  destruct (translator _ _) as [out|e]; simpl; [reflexivity|].
  destruct e; reflexivity.
Qed.

(** A non-empty search word goes to the resolver. *)
Lemma supported_languages_search (scorer : string -> string -> Z)
      (cfg : Config) (c : ascii) (w : string) :
  exists found,
    search_closest_items scorer (String c w) (languages cfg) default_threshold
    = Ok found
    /\ supported_languages scorer cfg (Some (String c w))
       = ([CallResolver (String c w)], Ok (Languages found)).
Proof.
  eexists. split; [apply search_closest_items_eq|].
  unfold supported_languages. rewrite search_closest_items_eq. reflexivity.
Qed.

(** C6: an authenticated POST /translate whose destination language,
    lowercased, is not in the catalog ends with the 400 error, and its run
    made no call: neither the translator nor the fuzzy resolver was
    invoked. *)
Theorem translate_rejects_unknown_destination
        (scorer : string -> string -> Z)
        (translator : string -> string -> result string) (cfg : Config)
        (api_key_header : option string) (userprompt : UserPrompt) :
  is_authenticated cfg api_key_header = Ok true ->
  ~ In (Py.lower (destination_language userprompt)) (languages cfg) ->
  route scorer translator cfg api_key_header (POST_translate userprompt)
  = ([], Raise (HTTPException 400
       (Text "Invalid destination language. Please provide a valid destination language."))).
Proof.
  intros Hauth Hnot. unfold route. rewrite Hauth. simpl.
  unfold translate.
  destruct (Py.mem (Py.lower (destination_language userprompt))
                   (languages cfg)) eqn:E.
  - apply mem_In in E. contradiction.
  - reflexivity.
Qed.

Lemma translate_rejects_unknown_destination_witness :
  is_authenticated sample_config (Some "secret"%string) = Ok true
  /\ ~ In (Py.lower "French") (languages sample_config)
  /\ route sample_scorer echo_translator sample_config (Some "secret"%string)
           (POST_translate {| prompt := "My name is Bard";
                              destination_language := "French" |})
     = ([], Raise (HTTPException 400
          (Text "Invalid destination language. Please provide a valid destination language."))).
Proof.
  split; [reflexivity|].
  split; [simpl; intuition discriminate|].
  apply (@translate_rejects_unknown_destination
           sample_scorer echo_translator sample_config (Some "secret"%string)
           {| prompt := "My name is Bard"; destination_language := "French" |}).
  - reflexivity.
  - simpl. intuition discriminate.
Defined.

(** C10 (the code rejects the request without search parameter): an
    authenticated GET /supported_languages with the empty search string
    answers with the whole catalog in load order and makes no call, the
    fuzzy resolver is not invoked; the same request without search parameter
    does not behave the same: it ends with the validation error (status
    422) and never reaches the handler, although the handler returns the
    whole catalog for [None]. *)
Theorem empty_search_differs_from_missing_search
        (scorer : string -> string -> Z)
        (translator : string -> string -> result string) (cfg : Config)
        (api_key_header : option string) :
  is_authenticated cfg api_key_header = Ok true ->
  route scorer translator cfg api_key_header
        (GET_supported_languages (Some ""%string))
  = ([], Ok (Languages (languages cfg)))
  /\ route scorer translator cfg api_key_header (GET_supported_languages None)
     = ([], Raise (PyError "RequestValidationError"))
  /\ route scorer translator cfg api_key_header
           (GET_supported_languages (Some ""%string))
     <> route scorer translator cfg api_key_header
              (GET_supported_languages None)
  /\ supported_languages scorer cfg None
     = ([], Ok (Languages (languages cfg))).
Proof.
  intros Hauth. unfold route. rewrite Hauth. simpl.
  split; [reflexivity|]. split; [reflexivity|].
  split; [discriminate | reflexivity].
Qed.

Lemma empty_search_differs_from_missing_search_witness :
  is_authenticated sample_config (Some "secret"%string) = Ok true
  /\ route sample_scorer echo_translator sample_config (Some "secret"%string)
           (GET_supported_languages (Some ""%string))
     = ([], Ok (Languages ["yoruba"; "hausa"]%string))
  /\ route sample_scorer echo_translator sample_config (Some "secret"%string)
           (GET_supported_languages None)
     = ([], Raise (PyError "RequestValidationError"))
  /\ route sample_scorer echo_translator sample_config (Some "secret"%string)
           (GET_supported_languages (Some ""%string))
     <> route sample_scorer echo_translator sample_config
              (Some "secret"%string) (GET_supported_languages None)
  /\ supported_languages sample_scorer sample_config None
     = ([], Ok (Languages ["yoruba"; "hausa"]%string)).
Proof.
  split; [reflexivity|].
  apply (@empty_search_differs_from_missing_search
           sample_scorer echo_translator sample_config (Some "secret"%string)).
  reflexivity.
Defined.

(** * Further properties of the code *)

(** ** List facts *)

Lemma prefix_refl {A} (l : list A) : prefix l l.
Proof.
  exists []. now rewrite app_nil_r.
Qed.

Lemma prefix_nil {A} (l : list A) : prefix [] l.
Proof.
  now exists l.
Qed.

Lemma prefix_trans {A} (l1 l2 l3 : list A) :
  prefix l1 l2 -> prefix l2 l3 -> prefix l1 l3.
Proof.
  intros [r1 ->] [r2 ->]. exists (r1 ++ r2). now rewrite app_assoc.
Qed.

Lemma prefix_map {A B} (f : A -> B) (l1 l2 : list A) :
  prefix l1 l2 -> prefix (map f l1) (map f l2).
Proof.
  intros [r ->]. exists (map f r). apply map_app.
Qed.

Lemma prefix_filter {A} (f : A -> bool) (l1 l2 : list A) :
  prefix l1 l2 -> prefix (filter f l1) (filter f l2).
Proof.
  intros [r ->]. exists (filter f r). apply filter_app.
Qed.

Lemma prefix_firstn {A} (n : nat) (l : list A) : prefix (firstn n l) l.
Proof.
  exists (skipn n l). symmetry. apply firstn_skipn.
Qed.

Lemma filter_all {A} (f : A -> bool) (l : list A) :
  (forall x, In x l -> f x = true) -> filter f l = l.
Proof.
  induction l as [|x l IH]; intros Hf; simpl; [reflexivity|].
  rewrite (Hf x) by now left. f_equal. apply IH. intros; apply Hf; now right.
Qed.

Lemma filter_none {A} (f : A -> bool) (l : list A) :
  (forall x, In x l -> f x = false) -> filter f l = [].
Proof.
  induction l as [|x l IH]; intros Hf; simpl; [reflexivity|].
  rewrite (Hf x) by now left. apply IH. intros; apply Hf; now right.
Qed.

Lemma filter_implied {A} (f g : A -> bool) (l : list A) :
  (forall x, f x = true -> g x = true) -> filter f (filter g l) = filter f l.
Proof.
  intros Hfg. induction l as [|x l IH]; simpl; [reflexivity|].
  destruct (g x) eqn:Eg; simpl.
  - now rewrite IH.
  - destruct (f x) eqn:Ef; [|assumption].
    apply Hfg in Ef. congruence.
Qed.

Lemma filter_excluded {A} (f g : A -> bool) (l : list A) :
  (forall x, f x = true -> g x = false) -> filter f (filter g l) = [].
Proof.
  intros Hfg. apply filter_none. intros x Hx.
  apply filter_In in Hx. destruct Hx as [_ Hg].
  destruct (f x) eqn:Ef; [|reflexivity]. apply Hfg in Ef. congruence.
Qed.

Lemma filter_map_comm {A B} (f : A -> B) (p : B -> bool) (l : list A) :
  filter p (map f l) = map f (filter (fun x => p (f x)) l).
Proof.
  induction l as [|x l IH]; simpl; [reflexivity|].
  destruct (p (f x)); simpl; now rewrite IH.
Qed.

Lemma by_key_desc_app {A} (key : A -> Z) (l1 l2 : list A) :
  by_key_desc key (l1 ++ l2) ->
  forall a b, In a l1 -> In b l2 -> (key b <= key a)%Z.
Proof.
  unfold by_key_desc.
  induction l1 as [|x l1 IH]; simpl; intros Hs a b Ha Hb; [contradiction|].
  inversion Hs as [|? ? Hl Hall]; subst.
  destruct Ha as [->|Ha].
  - rewrite Forall_forall in Hall. apply Hall, in_or_app. now right.
  - now apply (IH Hl a b).
Qed.

(** The sort is stable: it leaves the entries of any one key in their
    original order. *)
Lemma insert_desc_stable {A} (k0 k : Z) (x : A) (l : list (Z * A)) :
  filter (fun p => (fst p =? k0)%Z) (Py.insert_desc k x l)
  = filter (fun p => (fst p =? k0)%Z) ((k, x) :: l).
Proof.
  induction l as [|[k' y] l IH]; simpl; [reflexivity|].
  destruct (k' <=? k)%Z eqn:E; [reflexivity|].
  apply Z.leb_gt in E. simpl in *. rewrite IH.
  destruct (k =? k0)%Z eqn:Ek; [|reflexivity].
  apply Z.eqb_eq in Ek.
  replace (k' =? k0)%Z with false; [reflexivity|].
  symmetry. apply Z.eqb_neq. lia.
Qed.

Lemma sort_desc_stable {A} (k0 : Z) (l : list (Z * A)) :
  filter (fun p => (fst p =? k0)%Z) (Py.sort_desc l)
  = filter (fun p => (fst p =? k0)%Z) l.
Proof.
  induction l as [|[k x] l IH]; simpl; [reflexivity|].
  rewrite insert_desc_stable. simpl. now rewrite IH.
Qed.

Lemma sorted_desc_stable {A} (key : A -> Z) (k0 : Z) (l : list A) :
  filter (fun x => (key x =? k0)%Z) (Py.sorted_desc key l)
  = filter (fun x => (key x =? k0)%Z) l.
Proof.
  unfold Py.sorted_desc. rewrite filter_map_comm.
  rewrite (@filter_ext_in _ (fun p => (key (snd p) =? k0)%Z)
                            (fun p => (fst p =? k0)%Z)).
  - rewrite sort_desc_stable.
    rewrite (filter_map_comm (fun x => (key x, x))
                             (fun p => (fst p =? k0)%Z)).
    simpl. rewrite map_map. simpl. apply map_id.
  - intros p Hp.
    pose proof (Permutation_Forall
                  (Permutation_sym (sort_desc_perm _))
                  (decorated_keys key l)) as Hall.
    rewrite Forall_forall in Hall. now rewrite (Hall p Hp).
Qed.

(** ** More on the fuzzy resolver *)

Section ResolverRanking.

Variable scorer : string -> string -> Z.
Variable query : string.
Variable items : list string.
Variable threshold : Z.

Local Abbreviation sc := (scorer query).
Local Abbreviation scored := (Process.extractWithoutOrder scorer query items).
Local Abbreviation ranked := (Py.sorted_desc snd scored).
Local Abbreviation matches := (Process.extract scorer query items).
Local Abbreviation resolved :=
  (map fst (filter (fun m => (threshold <=? snd m)%Z) matches)).

Lemma resolved_score_bounds (x : string) :
  In x resolved -> In x items /\ (threshold <= sc x)%Z /\ (0 <= sc x)%Z.
Proof.
  intros Hx. apply filtered_In in Hx. destruct Hx as [Hm Ht].
  apply matches_In, scored_In in Hm. simpl in Hm. tauto.
Qed.

(** A qualifying candidate is returned, unless five candidates that score
    at least as high fill the result. *)
Lemma resolved_or_outscored (c : string) :
  In c items -> (0 <= sc c)%Z -> (threshold <= sc c)%Z ->
  In c resolved
  \/ (List.length resolved = 5%nat
      /\ forall x, In x resolved -> (sc c <= sc x)%Z).
Proof.
  intros Hc H0 Ht.
  assert (HcL : In (c, sc c) ranked).
  { eapply Permutation_in; [apply Permutation_sym, sorted_desc_perm|].
    apply scored_In. simpl. auto. }
  rewrite <- (firstn_skipn 5 ranked) in HcL.
  apply in_app_or in HcL. destruct HcL as [Hin|Hout].
  - left. apply filtered_In. split; assumption.
  - right.
    assert (Hge : forall m, In m matches -> (sc c <= snd m)%Z).
    { intros m Hm.
      pose proof (sorted_desc_sorted snd scored) as Hs.
      rewrite <- (firstn_skipn 5 ranked) in Hs.
      exact (by_key_desc_app _ _ Hs m (c, sc c) Hm Hout). }
    rewrite (filter_all (fun m => (threshold <=? snd m)%Z) matches).
    + split.
      * rewrite length_map. unfold Process.extract, Py.nlargest, Process.limit.
        apply firstn_length_le.
        destruct (Nat.le_gt_cases 5 (List.length ranked)) as [Hle|Hlt];
          [assumption|].
        rewrite skipn_all2 in Hout by lia. contradiction.
      * intros x Hx. apply in_map_iff in Hx. destruct Hx as [m [<- Hm]].
        pose proof (matches_scored scorer query items) as Hall.
        rewrite Forall_forall in Hall. rewrite <- (Hall m Hm). now apply Hge.
    + intros m Hm. apply Z.leb_le. specialize (Hge m Hm). lia.
Qed.

Lemma resolved_head_best (x : string) (rest : list string) :
  resolved = x :: rest -> forall y, In y resolved -> (sc y <= sc x)%Z.
Proof.
  intros E y Hy.
  pose proof (filtered_sorted scorer query items threshold) as Hs.
  unfold sorted_by_score in Hs. rewrite E in Hs, Hy.
  inversion Hs as [|? ? _ Hall]; subst.
  destruct Hy as [<-|Hy]; [lia|].
  rewrite Forall_forall in Hall. now apply Hall.
Qed.

Lemma resolved_nonempty (c : string) :
  In c items -> (0 <= sc c)%Z -> (threshold <= sc c)%Z -> resolved <> [].
Proof.
  intros Hc H0 Ht E.
  destruct (resolved_or_outscored Hc H0 Ht) as [Hin|[Hlen _]];
    rewrite E in *; [contradiction | discriminate].
Qed.

(** Raising the threshold keeps an initial segment of the thresholded
    matches. *)
Lemma resolved_prefix (threshold' : Z) :
  (threshold <= threshold')%Z ->
  prefix (map fst (filter (fun m => (threshold' <=? snd m)%Z) matches))
         resolved.
Proof.
  intros Hle. apply prefix_map.
  rewrite <- (filter_implied (fun m => (threshold' <=? snd m)%Z)
                             (fun m => (threshold <=? snd m)%Z) matches).
  - rewrite (@filter_threshold_prefix _ snd threshold'
               (filter (fun m => (threshold <=? snd m)%Z) matches)).
    + apply prefix_firstn.
    + apply by_key_desc_filter, matches_sorted.
  - intros m Hm. apply Z.leb_le in Hm. apply Z.leb_le. lia.
Qed.

(** Among the candidates of one score, the result holds an initial segment
    of them in candidate-list order. *)
Lemma resolved_ties (k : Z) :
  prefix (filter (fun x => (sc x =? k)%Z) resolved)
         (filter (fun x => (sc x =? k)%Z) items).
Proof.
  assert (Hitems :
    map fst (filter (fun m => (snd m =? k)%Z)
                    (map (fun choice => (choice, sc choice)) items))
    = filter (fun x => (sc x =? k)%Z) items).
  { rewrite (filter_map_comm (fun choice => (choice, sc choice))
                             (fun m => (snd m =? k)%Z)).
    simpl. rewrite map_map. simpl. apply map_id. }
  rewrite <- Hitems.
  rewrite (filter_map_comm fst (fun x => (sc x =? k)%Z)).
  apply prefix_map.
  rewrite (@filter_ext_in _ (fun m => (sc (fst m) =? k)%Z)
                            (fun m => (snd m =? k)%Z)).
  2:{ intros m Hm. apply filter_In in Hm. destruct Hm as [Hm _].
      pose proof (matches_scored scorer query items) as Hall.
      rewrite Forall_forall in Hall. now rewrite (Hall m Hm). }
  eapply prefix_trans with (l2 := filter (fun m => (snd m =? k)%Z) matches).
  { destruct (threshold <=? k)%Z eqn:E.
    - rewrite filter_implied; [apply prefix_refl|].
      intros m Hm. apply Z.eqb_eq in Hm. now rewrite Hm.
    - rewrite filter_excluded; [apply prefix_nil|].
      intros m Hm. apply Z.eqb_eq in Hm. now rewrite Hm. }
  eapply prefix_trans with (l2 := filter (fun m => (snd m =? k)%Z) ranked).
  { apply prefix_filter. unfold Process.extract, Py.nlargest.
    apply prefix_firstn. }
  rewrite (sorted_desc_stable snd k scored).
  unfold Process.extractWithoutOrder.
  destruct (Process.score_cutoff <=? k)%Z eqn:E.
  - rewrite filter_implied; [apply prefix_refl|].
    intros m Hm. apply Z.eqb_eq in Hm. now rewrite Hm.
  - rewrite filter_excluded; [apply prefix_nil|].
    intros m Hm. apply Z.eqb_eq in Hm. now rewrite Hm.
Qed.

End ResolverRanking.

(** X1: [search_closest_items] never raises: the key lookup of its final
    [sorted] call always succeeds, and that sort leaves the list as it was.
    The result is the list of [process.extract], cut at the threshold, in
    that list's order. *)
Theorem search_closest_items_sort_is_identity
        (scorer : string -> string -> Z) (query : string)
        (items : list string) (threshold : Z) :
  search_closest_items scorer query items threshold
  = Ok (map fst (filter (fun m => (threshold <=? snd m)%Z)
                        (Process.extract scorer query items))).
Proof.
  apply search_closest_items_eq.
Qed.

(** X5: the result holds the best five: a candidate that reaches the
    threshold (and the cutoff 0) is returned unless the result already has
    five entries, each scoring at least as high as it. *)
Theorem search_closest_items_keeps_best_five
        (scorer : string -> string -> Z) (query : string)
        (items : list string) (threshold : Z) (c : string) :
  In c items -> (0 <= scorer query c)%Z -> (threshold <= scorer query c)%Z ->
  exists l, search_closest_items scorer query items threshold = Ok l
            /\ (In c l
                \/ (List.length l = 5%nat
                    /\ forall x, In x l ->
                                 (scorer query c <= scorer query x)%Z)).
Proof.
  intros Hc H0 Ht. eexists. split; [apply search_closest_items_eq|].
  now apply resolved_or_outscored.
Qed.

Lemma search_closest_items_keeps_best_five_witness :
  In "chinese hakka"%string chinese_catalog
  /\ (0 <= sample_scorer "chinese" "chinese hakka")%Z
  /\ (75 <= sample_scorer "chinese" "chinese hakka")%Z
  /\ exists l, search_closest_items sample_scorer "chinese" chinese_catalog 75
               = Ok l
               /\ (In "chinese hakka"%string l
                   \/ (List.length l = 5%nat
                       /\ forall x, In x l ->
                            (sample_scorer "chinese" "chinese hakka"
                             <= sample_scorer "chinese" x)%Z)).
Proof.
  split; [simpl; tauto|].
  split; [apply Z.leb_le; reflexivity|].
  split; [apply Z.leb_le; reflexivity|].
  apply (@search_closest_items_keeps_best_five
           sample_scorer "chinese" chinese_catalog 75 "chinese hakka").
  - simpl. tauto.
  - apply Z.leb_le. reflexivity.
  - apply Z.leb_le. reflexivity.
Defined.

(** X6: when some candidate reaches the threshold (and the cutoff 0), the
    result is not empty and its first entry is a candidate of the highest
    score in the whole candidate list. *)
Theorem search_closest_items_best_first
        (scorer : string -> string -> Z) (query : string)
        (items : list string) (threshold : Z) (c : string) :
  In c items -> (0 <= scorer query c)%Z -> (threshold <= scorer query c)%Z ->
  exists x rest,
    search_closest_items scorer query items threshold = Ok (x :: rest)
    /\ In x items
    /\ forall c', In c' items -> (scorer query c' <= scorer query x)%Z.
Proof.
  intros Hc H0 Ht. rewrite search_closest_items_eq.
  destruct (map fst _) as [|x rest] eqn:E.
  - now apply (@resolved_nonempty scorer query items threshold c) in E.
  - exists x, rest. split; [reflexivity|].
    assert (Hx : In x (x :: rest)) by now left.
    rewrite <- E in Hx.
    destruct (@resolved_score_bounds scorer query items threshold x Hx)
      as [Hxi [Hxt Hx0]].
    split; [assumption|]. intros c' Hc'.
    destruct (Z.lt_ge_cases (scorer query c') 0) as [Hneg|Hpos]; [lia|].
    destruct (Z.lt_ge_cases (scorer query c') threshold) as [Hlow|Hhigh];
      [lia|].
    destruct (@resolved_or_outscored scorer query items threshold c'
                Hc' Hpos Hhigh) as [Hin|[_ Hall]].
    + now apply (@resolved_head_best scorer query items threshold x rest E).
    + now apply Hall.
Qed.

Lemma search_closest_items_best_first_witness :
  In "chinese simplified"%string chinese_catalog
  /\ (0 <= sample_scorer "chinese" "chinese simplified")%Z
  /\ (75 <= sample_scorer "chinese" "chinese simplified")%Z
  /\ exists x rest,
       search_closest_items sample_scorer "chinese" chinese_catalog 75
       = Ok (x :: rest)
       /\ In x chinese_catalog
       /\ forall c', In c' chinese_catalog ->
                     (sample_scorer "chinese" c'
                      <= sample_scorer "chinese" x)%Z.
Proof.
  split; [simpl; tauto|].
  split; [apply Z.leb_le; reflexivity|].
  split; [apply Z.leb_le; reflexivity|].
  apply (@search_closest_items_best_first
           sample_scorer "chinese" chinese_catalog 75 "chinese simplified").
  - simpl. tauto.
  - apply Z.leb_le. reflexivity.
  - apply Z.leb_le. reflexivity.
Defined.

(** X7: raising the threshold only shortens the result from its end: the
    result for the higher threshold is an initial segment of the result for
    the lower one. *)
Theorem search_closest_items_threshold_monotone
        (scorer : string -> string -> Z) (query : string)
        (items : list string) (threshold threshold' : Z) :
  (threshold <= threshold')%Z ->
  exists l l',
    search_closest_items scorer query items threshold = Ok l
    /\ search_closest_items scorer query items threshold' = Ok l'
    /\ prefix l' l.
Proof.
  intros Hle. do 2 eexists.
  split; [apply search_closest_items_eq|].
  split; [apply search_closest_items_eq|].
  now apply resolved_prefix.
Qed.

Lemma search_closest_items_threshold_monotone_witness :
  (75 <= 95)%Z
  /\ exists l l',
       search_closest_items sample_scorer "chinese" chinese_catalog 75 = Ok l
       /\ search_closest_items sample_scorer "chinese" chinese_catalog 95
          = Ok l'
       /\ prefix l' l.
Proof.
  split; [apply Z.leb_le; reflexivity|].
  apply (@search_closest_items_threshold_monotone
           sample_scorer "chinese" chinese_catalog 75 95).
  apply Z.leb_le. reflexivity.
Defined.

(** X8: ties keep the order of the candidate list: for every score, the
    returned candidates of that score are an initial segment of the
    candidates of that score, in candidate-list order. *)
Theorem search_closest_items_ties_keep_order
        (scorer : string -> string -> Z) (query : string)
        (items : list string) (threshold k : Z) :
  exists l, search_closest_items scorer query items threshold = Ok l
            /\ prefix (filter (fun x => (scorer query x =? k)%Z) l)
                      (filter (fun x => (scorer query x =? k)%Z) items).
Proof.
  eexists. split; [apply search_closest_items_eq | apply resolved_ties].
Qed.

(** X9: the result is empty exactly when no candidate that passes the
    cutoff 0 reaches the threshold; in particular it is empty for an empty
    candidate list, and the limit of five never empties it. *)
Theorem search_closest_items_empty_iff
        (scorer : string -> string -> Z) (query : string)
        (items : list string) (threshold : Z) :
  exists l, search_closest_items scorer query items threshold = Ok l
            /\ (l = [] <->
                forall c, In c items -> (0 <= scorer query c)%Z ->
                          (scorer query c < threshold)%Z).
Proof.
  eexists. split; [apply search_closest_items_eq|]. split.
  - intros E c Hc H0.
    destruct (Z.lt_ge_cases (scorer query c) threshold) as [Hlt|Hge];
      [assumption|].
    now apply (@resolved_nonempty scorer query items threshold c) in E.
  - intros Hall. destruct (map fst _) as [|x rest] eqn:E; [reflexivity|].
    assert (Hx : In x (x :: rest)) by now left.
    rewrite <- E in Hx.
    destruct (@resolved_score_bounds scorer query items threshold x Hx)
      as [Hxi [Hxt Hx0]].
    specialize (Hall x Hxi Hx0). lia.
Qed.

Lemma resolver_complete_within_limit_witness :
  (List.length ["chinese simplified"; "chinese"]%string <= 5)%nat
  /\ In "chinese"%string ["chinese simplified"; "chinese"]%string
  /\ (75 <= sample_scorer "chinese" "chinese")%Z
  /\ (0 <= sample_scorer "chinese" "chinese")%Z
  /\ exists l, search_closest_items sample_scorer "chinese"
                 ["chinese simplified"; "chinese"]%string 75 = Ok l
               /\ In "chinese"%string l.
Proof.
  split; [simpl; lia|]. split; [simpl; tauto|].
  split; [apply Z.leb_le; reflexivity|].
  split; [apply Z.leb_le; reflexivity|].
  apply (@resolver_complete_within_limit sample_scorer "chinese"
           ["chinese simplified"; "chinese"]%string 75 "chinese").
  - simpl. lia.
  - simpl. tauto.
  - apply Z.leb_le. reflexivity.
  - apply Z.leb_le. reflexivity.
Defined.

Lemma chinese_catalog_all_qualify (c : string) :
  In c chinese_catalog -> (75 <= sample_scorer "chinese" c)%Z.
Proof.
  unfold chinese_catalog. simpl. intros H.
  repeat (destruct H as [<-|H]; [apply Z.leb_le; reflexivity|]).
  contradiction.
Defined.

Lemma resolver_omits_beyond_limit_witness :
  NoDup chinese_catalog
  /\ (5 < List.length chinese_catalog)%nat
  /\ (forall c, In c chinese_catalog ->
                (75 <= sample_scorer "chinese" c)%Z)
  /\ exists l c,
       search_closest_items sample_scorer "chinese" chinese_catalog 75 = Ok l
       /\ In c chinese_catalog
       /\ (75 <= sample_scorer "chinese" c)%Z
       /\ ~ In c l.
Proof.
  split; [exact chinese_catalog_NoDup|].
  split; [simpl; lia|].
  split; [exact chinese_catalog_all_qualify|].
  apply (@resolver_omits_beyond_limit sample_scorer "chinese"
           chinese_catalog 75 chinese_catalog_NoDup).
  - simpl. lia.
  - exact chinese_catalog_all_qualify.
Defined.

(** ** More on the catalog *)

Lemma split_single (sep : ascii) (tok : string) :
  Py.contains sep tok = false -> Py.split sep tok = [tok].
Proof.
  induction tok as [|c tok IH]; simpl; [reflexivity|].
  intros H. apply orb_false_iff in H. destruct H as [Hc Htok].
  rewrite Hc, (IH Htok). reflexivity.
Qed.

Lemma split_app_sep (sep : ascii) (tok rest : string) :
  Py.contains sep tok = false ->
  Py.split sep (tok ++ String sep rest) = tok :: Py.split sep rest.
Proof.
  induction tok as [|c tok IH]; simpl.
  - intros _. now rewrite Ascii.eqb_refl.
  - intros H. apply orb_false_iff in H. destruct H as [Hc Htok].
    rewrite Hc, (IH Htok). reflexivity.
Qed.

(** Splitting the join of separator-free tokens gives the tokens back. *)
Lemma split_join (sep : ascii) (toks : list string) :
  toks <> [] ->
  Forall (fun tok => Py.contains sep tok = false) toks ->
  Py.split sep (Py.join sep toks) = toks.
Proof.
  induction toks as [|tok toks IH]; intros Hne Hall; [congruence|].
  inversion Hall as [|? ? Htok Htoks]; subst.
  destruct toks as [|tok' toks].
  - simpl. now apply split_single.
  - change (Py.join sep (tok :: tok' :: toks))
      with (tok ++ String sep (Py.join sep (tok' :: toks)))%string.
    rewrite split_app_sep by assumption. f_equal.
    apply IH; [discriminate | assumption].
Qed.

Lemma lower_char_id (c : ascii) :
  Py.is_upper c = false -> Py.lower_char c = c.
Proof.
  unfold Py.is_upper, Py.lower_char. intros H. now rewrite H.
Qed.

Lemma lower_id (s : string) : Py.has_upper s = false -> Py.lower s = s.
Proof.
  induction s as [|c s IH]; simpl; [reflexivity|].
  intros H. apply orb_false_iff in H. destruct H as [Hc Hs].
  rewrite lower_char_id by assumption. now rewrite (IH Hs).
Qed.

(** X15: a non-empty list of names without commas and without capitals is
    recovered exactly, in order, from its comma-joined configuration
    string. *)
Theorem load_languages_of_join (names : list string) :
  names <> [] ->
  Forall (fun name => Py.contains "," name = false
                      /\ Py.has_upper name = false) names ->
  load_languages (Py.join "," names) = names.
Proof.
  intros Hne Hall. unfold load_languages.
  rewrite split_join; [|assumption|].
  - rewrite <- (map_id names) at 2. apply map_ext_in.
    intros name Hin. rewrite Forall_forall in Hall.
    apply lower_id. now apply Hall.
  - eapply Forall_impl; [|exact Hall]. simpl. tauto.
Qed.

Lemma load_languages_of_join_witness :
  ["yoruba"; "hausa"; "igbo"]%string <> []
  /\ Forall (fun name => Py.contains "," name = false
                         /\ Py.has_upper name = false)
            ["yoruba"; "hausa"; "igbo"]%string
  /\ load_languages (Py.join "," ["yoruba"; "hausa"; "igbo"]%string)
     = ["yoruba"; "hausa"; "igbo"]%string.
Proof.
  split; [discriminate|].
  split; [repeat constructor|].
  apply (@load_languages_of_join ["yoruba"; "hausa"; "igbo"]%string).
  - discriminate.
  - repeat constructor.
Defined.

(** ** More on the request handlers *)

(** X10: on every route, a header value that differs from the configured
    key ends the request with the 401 error before any handler code runs:
    no call is made. *)
Theorem route_requires_key
        (scorer : string -> string -> Z)
        (translator : string -> string -> result string) (cfg : Config)
        (api_key_header : option string) (ep : endpoint) :
  api_key_header <> api_key cfg ->
  route scorer translator cfg api_key_header ep
  = ([], Raise (HTTPException 401
                  (Text "Incorrect Authentication credentials"))).
Proof.
  intros Hne. unfold route, is_authenticated.
  destruct (opt_eqb api_key_header (api_key cfg)) eqn:E.
  - apply opt_eqb_eq in E. contradiction.
  - reflexivity.
Qed.

Lemma route_requires_key_witness :
  None <> api_key sample_config
  /\ route sample_scorer echo_translator sample_config None
           (POST_translate {| prompt := "My name is Bard";
                              destination_language := "hausa" |})
     = ([], Raise (HTTPException 401
                     (Text "Incorrect Authentication credentials"))).
Proof.
  split; [discriminate|].
  apply (@route_requires_key sample_scorer echo_translator sample_config None
           (POST_translate {| prompt := "My name is Bard";
                              destination_language := "hausa" |})).
  discriminate.
Defined.


(** X12: an authenticated GET that carries its parameters never fails.
    /all_supported_languages answers with the whole catalog and makes no
    call; /supported_languages with a search word, empty or not, answers
    with catalog entries only, and calls the resolver at most once, with the
    search word it was given. *)
Theorem get_routes_succeed
        (scorer : string -> string -> Z)
        (translator : string -> string -> result string) (cfg : Config)
        (api_key_header : option string) (search : string) :
  is_authenticated cfg api_key_header = Ok true ->
  route scorer translator cfg api_key_header GET_all_supported_languages
  = ([], Ok (Languages (languages cfg)))
  /\ exists calls found,
       route scorer translator cfg api_key_header
             (GET_supported_languages (Some search))
       = (calls, Ok (Languages found))
       /\ incl found (languages cfg)
       /\ ((search = ""%string /\ calls = [] /\ found = languages cfg)
           \/ (search <> ""%string /\ calls = [CallResolver search]
               /\ search_closest_items scorer search (languages cfg)
                                       default_threshold = Ok found)).
Proof.
  intros Hauth. unfold route. rewrite Hauth. simpl.
  split; [reflexivity|].
  unfold supported_languages.
  destruct search as [|c w]; simpl.
  - do 2 eexists. split; [reflexivity|].
    split; [apply incl_refl | now left].
  - rewrite search_closest_items_eq. simpl.
    do 2 eexists. split; [reflexivity|].
    split; [apply resolved_incl|]. right.
    split; [discriminate|]. split; reflexivity.
Qed.

Lemma get_routes_succeed_witness :
  is_authenticated chinese_config (Some "secret"%string) = Ok true
  /\ route sample_scorer echo_translator chinese_config (Some "secret"%string)
           GET_all_supported_languages
     = ([], Ok (Languages (languages chinese_config)))
  /\ exists calls found,
       route sample_scorer echo_translator chinese_config
             (Some "secret"%string)
             (GET_supported_languages (Some "chinese"%string))
       = (calls, Ok (Languages found))
       /\ incl found (languages chinese_config)
       /\ (("chinese"%string = ""%string /\ calls = []
            /\ found = languages chinese_config)
           \/ ("chinese"%string <> ""%string
               /\ calls = [CallResolver "chinese"]
               /\ search_closest_items sample_scorer "chinese"
                     (languages chinese_config) default_threshold
                  = Ok found)).
Proof.
  split; [reflexivity|].
  apply (@get_routes_succeed sample_scorer echo_translator chinese_config
           (Some "secret"%string) "chinese"%string).
  reflexivity.
Defined.

(** X13: a destination that is in the catalog after lowercasing reaches the
    translator exactly once, with the prompt and with the destination as the
    caller wrote it (not lowercased).  The translated text is the response;
    an [HTTPException] of the translator is passed on unchanged; any other
    exception becomes the 500 error. *)
Theorem translate_valid_destination
        (translator : string -> string -> result string) (cfg : Config)
        (userprompt : UserPrompt) :
  In (Py.lower (destination_language userprompt)) (languages cfg) ->
  translate translator cfg userprompt
  = ([CallTranslator (prompt userprompt) (destination_language userprompt)],
     match translator (prompt userprompt) (destination_language userprompt)
     with
     | Ok out => Ok (UserPromptResponse out)
     | Raise (HTTPException status detail) =>
         Raise (HTTPException status detail)
     | Raise (PyError name) =>
         Raise (HTTPException 500 (InternalServerError (PyError name)))
     end).
Proof.
  intros Hin. apply mem_In in Hin. unfold translate. rewrite Hin. simpl.
  destruct (translator _ _) as [out|[status detail|name]]; reflexivity.
Qed.

Lemma translate_valid_destination_witness :
  In (Py.lower "Hausa") (languages sample_config)
  /\ translate echo_translator sample_config
               {| prompt := "My name is Bard";
                  destination_language := "Hausa" |}
     = ([CallTranslator "My name is Bard" "Hausa"],
        Ok (UserPromptResponse "My name is Bard")).
Proof.
  split; [simpl; tauto|].
  apply (@translate_valid_destination echo_translator sample_config
           {| prompt := "My name is Bard"; destination_language := "Hausa" |}).
  simpl. tauto.
Defined.

(** X14: every name listed in LANGUAGES is accepted as a destination in any
    capitalisation: when the destination and a comma-separated token of the
    configuration value have the same lowercase form, startup succeeds and
    /translate hands the request to the translator. *)
Theorem configured_language_is_accepted
        (translator : string -> string -> result string) (getenv : environ)
        (s tok text dest : string) :
  getenv "LANGUAGES"%string = Some s ->
  In tok (Py.split "," s) ->
  Py.lower dest = Py.lower tok ->
  exists cfg,
    startup getenv = Ok cfg
    /\ trace (translate translator cfg
                        {| prompt := text; destination_language := dest |})
       = [CallTranslator text dest].
Proof.
  intros Hs Htok Hlow. unfold startup. rewrite Hs.
  eexists. split; [reflexivity|].
  apply translate_forwards_catalog_member. simpl.
  rewrite Hlow. unfold load_languages. now apply in_map.
Qed.

Lemma configured_language_is_accepted_witness :
  env_without_api_key "LANGUAGES"%string = Some "yoruba,hausa"%string
  /\ In "hausa"%string (Py.split "," "yoruba,hausa")
  /\ Py.lower "HAUSA" = Py.lower "hausa"
  /\ exists cfg,
       startup env_without_api_key = Ok cfg
       /\ trace (translate echo_translator cfg
                   {| prompt := "My name is Bard";
                      destination_language := "HAUSA" |})
          = [CallTranslator "My name is Bard" "HAUSA"].
Proof.
  split; [reflexivity|].
  split; [simpl; tauto|].
  split; [reflexivity|].
  apply (@configured_language_is_accepted echo_translator env_without_api_key
           "yoruba,hausa" "hausa" "My name is Bard" "HAUSA").
  - reflexivity.
  - simpl. tauto.
  - reflexivity.
Defined.

(** X16: every returned entry is a candidate whose score reaches the
    threshold (and the cutoff 0): nothing below the threshold is ever
    returned. *)
Theorem search_closest_items_sound
        (scorer : string -> string -> Z) (query : string)
        (items : list string) (threshold : Z) :
  exists l, search_closest_items scorer query items threshold = Ok l
            /\ Forall (fun x => In x items
                                /\ (threshold <= scorer query x)%Z
                                /\ (0 <= scorer query x)%Z) l.
Proof.
  eexists. split; [apply search_closest_items_eq|].
  apply Forall_forall. intros x Hx.
  now apply (@resolved_score_bounds scorer query items threshold).
Qed.
